(** * KeepAlive/keepalive.c: TCP keepalive configuration of a socket

    The C file holds one function, [enable_keepalive], which issues four
    [setsockopt] calls on a caller-owned descriptor and gives up at the
    first one the operating system refuses.  The function is embedded as
    a program over one kind of system call; the operating system is an
    arbitrary interpreter of those calls. *)

From Stdlib Require Import ZArith List Lia.
From stdpp Require Import base option list gmap.
Import ListNotations.
Local Open Scope Z_scope.

(** ** System-call interface *)

(** The protocol levels and option names the file refers to, kept
    symbolic as in the source (they come from <netinet/in.h> and
    <netinet/tcp.h>). *)
Inductive level : Type := SOL_SOCKET | IPPROTO_TCP.
Inductive optname : Type :=
  SO_KEEPALIVE | TCP_KEEPIDLE | TCP_KEEPINTVL | TCP_KEEPCNT.

#[global] Instance level_eq_dec : EqDecision level.
Proof. solve_decision. Defined.
#[global] Instance optname_eq_dec : EqDecision optname.
Proof. solve_decision. Defined.

(** [sizeof(int)] on the ABIs the library is built for. *)
Definition sizeof_int : Z := 4.

(** One call [setsockopt(sock, level, optname, &optval, optlen)]; the
    pointer argument is represented by the [int] it points to. *)
Record sockcall : Type := Setsockopt {
  sc_sock : Z;
  sc_level : level;
  sc_optname : optname;
  sc_optval : Z;
  sc_optlen : Z
}.

(** The setting a call addresses: descriptor, level and option name. *)
Definition key : Type := (Z * level * optname)%type.
Definition sc_key (c : sockcall) : key := (sc_sock c, sc_level c, sc_optname c).

(** Programs that talk to the operating system: either they have returned,
    or they issue a call and continue with the [int] it returns. *)
Inductive prog (A : Type) : Type :=
| Ret (a : A)
| Sys (c : sockcall) (k : Z -> prog A).
Arguments Ret {A} a.
Arguments Sys {A} c k.

Fixpoint bind {A B : Type} (p : prog A) (f : A -> prog B) : prog B :=
  match p with
  | Ret a => f a
  | Sys c k => Sys c (fun r => bind (k r) f)
  end.

#[global] Instance prog_ret : MRet prog := @Ret.
#[global] Instance prog_bind : MBind prog := fun A B f p => bind p f.

Definition setsockopt (sock : Z) (lvl : level) (opt : optname)
    (optval optlen : Z) : prog Z :=
  Sys (Setsockopt sock lvl opt optval optlen) Ret.

(** ** The C file *)

(** C's [a != b] and [!a] on [int]. *)
Definition int_ne (a b : Z) : Z := if a =? b then 0 else 1.
Definition int_not (a : Z) : Z := if a =? 0 then 1 else 0.

(** [#define check(expr) if (!(expr)) { return 0; }] followed by the rest
    of the function body. *)
Definition check (expr : prog Z) (rest : prog Z) : prog Z :=
  v ← expr;
  if int_not v =? 0 then rest else Ret 0.

Definition enable_keepalive
    (sock enable_keepalive time interval maxpkt : Z) : prog Z :=
  check (r ← setsockopt sock SOL_SOCKET SO_KEEPALIVE enable_keepalive sizeof_int;
         mret (int_ne r (-1))) (
  check (r ← setsockopt sock IPPROTO_TCP TCP_KEEPIDLE time sizeof_int;
         mret (int_ne r (-1))) (
  check (r ← setsockopt sock IPPROTO_TCP TCP_KEEPINTVL interval sizeof_int;
         mret (int_ne r (-1))) (
  check (r ← setsockopt sock IPPROTO_TCP TCP_KEEPCNT maxpkt sizeof_int;
         mret (int_ne r (-1))) (
  Ret 1)))).

(** ** The operating system *)

(** An operating system is any state together with an answer to each
    [setsockopt] call; [k_getsockopt] reads a setting back. *)
Record kernel : Type := Kernel {
  kstate : Type;
  k_setsockopt : kstate -> sockcall -> kstate * Z;
  k_getsockopt : kstate -> Z -> level -> optname -> option Z
}.

(** What a run leaves behind: the value returned, the kernel state, and
    the calls issued with the kernel's answers, oldest first. *)
Record outcome (K : kernel) : Type := Outcome {
  retval : Z;
  final : kstate K;
  trace : list (sockcall * Z)
}.
Arguments Outcome {K} _ _ _.
Arguments retval {K} _.
Arguments final {K} _.
Arguments trace {K} _.

Fixpoint run (K : kernel) (p : prog Z) (s : kstate K) : outcome K :=
  match p with
  | Ret a => Outcome a s []
  | Sys c k =>
      let sr := k_setsockopt K s c in
      let o := run K (k sr.2) sr.1 in
      Outcome (retval o) (final o) ((c, sr.2) :: trace o)
  end.

(** Reading back the setting a call addresses. *)
Definition reads (K : kernel) (s : kstate K) (c : sockcall) : option Z :=
  k_getsockopt K s (sc_sock c) (sc_level c) (sc_optname c).

(** ** The algorithm as the specification words it *)

(** The four settings in their fixed order. *)
Definition steps (sock enabled idleTime probeInterval maxProbes : Z)
    : list sockcall :=
  [ Setsockopt sock SOL_SOCKET SO_KEEPALIVE enabled sizeof_int;
    Setsockopt sock IPPROTO_TCP TCP_KEEPIDLE idleTime sizeof_int;
    Setsockopt sock IPPROTO_TCP TCP_KEEPINTVL probeInterval sizeof_int;
    Setsockopt sock IPPROTO_TCP TCP_KEEPCNT maxProbes sizeof_int ].

(** Apply the settings in sequence, short-circuiting on the first
    failure: success is 1, failure is 0. *)
Fixpoint apply_settings (K : kernel) (s : kstate K) (cs : list sockcall)
    : outcome K :=
  match cs with
  | [] => Outcome 1 s []
  | c :: cs' =>
      let sr := k_setsockopt K s c in
      if sr.2 =? -1 then Outcome 0 sr.1 [(c, sr.2)]
      else
        let o := apply_settings K sr.1 cs' in
        Outcome (retval o) (final o) ((c, sr.2) :: trace o)
  end.

(** The kernel accepts every call of the sequence, each in the state the
    previous ones left. *)
Fixpoint accepts (K : kernel) (s : kstate K) (cs : list sockcall) : bool :=
  match cs with
  | [] => true
  | c :: cs' =>
      let sr := k_setsockopt K s c in
      negb (sr.2 =? -1) && accepts K sr.1 cs'
  end.

(** A logged call succeeded when the kernel did not answer -1. *)
Definition succeeded (e : sockcall * Z) : Prop := e.2 <> -1.

(** [at_most n p]: whatever the kernel answers, [p] returns after at most
    [n] calls. *)
Inductive at_most : nat -> prog Z -> Prop :=
| at_most_ret n a : at_most n (Ret a)
| at_most_sys n c k : (forall r, at_most n (k r)) -> at_most (S n) (Sys c k).

(** ** What is assumed of a platform where settings are read back *)

(** A platform stores settings faithfully when a refused call changes no
    setting, and an accepted call stores its value in the setting it
    addresses and changes no other one. *)
Record faithful (K : kernel) : Prop := Faithful {
  refused_frame : forall s c fd l o,
    (k_setsockopt K s c).2 = -1 ->
    k_getsockopt K (k_setsockopt K s c).1 fd l o = k_getsockopt K s fd l o;
  accepted_write : forall s c,
    (k_setsockopt K s c).2 <> -1 ->
    reads K (k_setsockopt K s c).1 c = Some (sc_optval c);
  accepted_frame : forall s c fd l o,
    (k_setsockopt K s c).2 <> -1 ->
    (fd, l, o) <> sc_key c ->
    k_getsockopt K (k_setsockopt K s c).1 fd l o = k_getsockopt K s fd l o
}.

(** On a platform with stable acceptance a call that would be accepted
    now is still accepted after any other call (the handle stays valid
    and legal ranges do not move). *)
Definition stable (K : kernel) : Prop :=
  forall s c c',
    (k_setsockopt K s c).2 <> -1 ->
    (k_setsockopt K (k_setsockopt K s c').1 c).2 <> -1.

(** The platform refuses every configuration call on descriptor [sock]
    in state [s]: the handle is closed or invalid. *)
Definition rejects (K : kernel) (s : kstate K) (sock : Z) : Prop :=
  forall l o v n, (k_setsockopt K s (Setsockopt sock l o v n)).2 = -1.

(** ** Two small platforms to run the program on *)

(** A platform that answers [r] to every call and stores nothing. *)
Definition const_kernel (r : Z) : kernel :=
  Kernel unit (fun s _ => (s, r)) (fun _ _ _ _ => None).

(** A descriptor table in the manner of Linux: each open stream socket
    carries its four keepalive settings. *)
Record sockopts : Type := Sockopts {
  so_keepalive : Z;
  tcp_keepidle : Z;
  tcp_keepintvl : Z;
  tcp_keepcnt : Z
}.

(** A socket as [socket(2)] hands it out: keepalive off, 7200 s idle,
    75 s between probes, 9 probes. *)
Definition fresh_socket : sockopts := Sockopts 0 7200 75 9.

Definition opt_get (l : level) (o : optname) (so : sockopts) : option Z :=
  match l, o with
  | SOL_SOCKET, SO_KEEPALIVE => Some (so_keepalive so)
  | IPPROTO_TCP, TCP_KEEPIDLE => Some (tcp_keepidle so)
  | IPPROTO_TCP, TCP_KEEPINTVL => Some (tcp_keepintvl so)
  | IPPROTO_TCP, TCP_KEEPCNT => Some (tcp_keepcnt so)
  | _, _ => None
  end.

(** The new settings, or [None] when the option does not exist at that
    level or the value is outside its legal range. *)
Definition opt_set (l : level) (o : optname) (v : Z) (so : sockopts)
    : option sockopts :=
  match l, o with
  | SOL_SOCKET, SO_KEEPALIVE =>
      Some (Sockopts v (tcp_keepidle so) (tcp_keepintvl so) (tcp_keepcnt so))
  | IPPROTO_TCP, TCP_KEEPIDLE =>
      if (1 <=? v) && (v <=? 32767)
      then Some (Sockopts (so_keepalive so) v (tcp_keepintvl so) (tcp_keepcnt so))
      else None
  | IPPROTO_TCP, TCP_KEEPINTVL =>
      if (1 <=? v) && (v <=? 32767)
      then Some (Sockopts (so_keepalive so) (tcp_keepidle so) v (tcp_keepcnt so))
      else None
  | IPPROTO_TCP, TCP_KEEPCNT =>
      if (1 <=? v) && (v <=? 127)
      then Some (Sockopts (so_keepalive so) (tcp_keepidle so) (tcp_keepintvl so) v)
      else None
  | _, _ => None
  end.

Definition is_tcp (l : level) : bool :=
  match l with IPPROTO_TCP => true | SOL_SOCKET => false end.

(** [strict] platforms refuse TCP-level keepalive options while keepalive
    is switched off on the socket. *)
Definition table_setsockopt (strict : bool) (t : gmap Z sockopts)
    (c : sockcall) : gmap Z sockopts * Z :=
  match t !! sc_sock c with
  | None => (t, -1)
  | Some so =>
      if sc_optlen c <? sizeof_int then (t, -1)
      else if strict && is_tcp (sc_level c) && (so_keepalive so =? 0)
      then (t, -1)
      else
        match opt_set (sc_level c) (sc_optname c) (sc_optval c) so with
        | None => (t, -1)
        | Some so' => (<[sc_sock c := so']> t, 0)
        end
  end.

Definition table_getsockopt (t : gmap Z sockopts) (fd : Z) (l : level)
    (o : optname) : option Z :=
  match t !! fd with
  | None => None
  | Some so => opt_get l o so
  end.

Definition table_kernel (strict : bool) : kernel :=
  Kernel (gmap Z sockopts) (table_setsockopt strict) table_getsockopt.

(** One open socket, descriptor 3, freshly created. *)
Definition one_socket : gmap Z sockopts := {[ 3 := fresh_socket ]}.

(** One open socket, descriptor 3, with keepalive already switched on. *)
Definition live_socket : gmap Z sockopts := {[ 3 := Sockopts 1 7200 75 9 ]}.

(** Two open sockets: descriptor 3 freshly created, descriptor 4 already
    configured by its owner. *)
Definition two_sockets : gmap Z sockopts :=
  <[ 4 := Sockopts 1 30 5 3 ]> one_socket.

(** A platform stores settings as [norm] when a refused call changes no
    setting, and an accepted call leaves [norm level option value] in
    the setting it addresses and changes no other one.  [faithful] is
    the case where [norm] returns the value as given. *)
Record stores (K : kernel) (norm : level -> optname -> Z -> Z) : Prop := Stores {
  st_refused_frame : forall s c fd l o,
    (k_setsockopt K s c).2 = -1 ->
    k_getsockopt K (k_setsockopt K s c).1 fd l o = k_getsockopt K s fd l o;
  st_accepted_write : forall s c,
    (k_setsockopt K s c).2 <> -1 ->
    reads K (k_setsockopt K s c).1 c =
    Some (norm (sc_level c) (sc_optname c) (sc_optval c));
  st_accepted_frame : forall s c fd l o,
    (k_setsockopt K s c).2 <> -1 ->
    (fd, l, o) <> sc_key c ->
    k_getsockopt K (k_setsockopt K s c).1 fd l o = k_getsockopt K s fd l o
}.

(** The descriptor table with the keepalive switch kept as a flag, the
    way Linux keeps it: any nonzero value switches keepalive on and
    reads back as 1; the three TCP values are kept as given. *)
Definition as_flag (v : Z) : Z := if v =? 0 then 0 else 1.

Definition stored_value (l : level) (o : optname) (v : Z) : Z :=
  match o with
  | SO_KEEPALIVE => as_flag v
  | _ => v
  end.

Definition flag_setsockopt (t : gmap Z sockopts) (c : sockcall)
    : gmap Z sockopts * Z :=
  table_setsockopt false t
    (Setsockopt (sc_sock c) (sc_level c) (sc_optname c)
       (stored_value (sc_level c) (sc_optname c) (sc_optval c)) (sc_optlen c)).

Definition flag_kernel : kernel :=
  Kernel (gmap Z sockopts) flag_setsockopt table_getsockopt.

(** ** The program against the algorithm *)

Lemma run_check_setsockopt K sock lvl opt v n rest s :
  run K (check (r ← setsockopt sock lvl opt v n; mret (int_ne r (-1))) rest) s =
  let sr := k_setsockopt K s (Setsockopt sock lvl opt v n) in
  if sr.2 =? -1 then Outcome 0 sr.1 [(Setsockopt sock lvl opt v n, sr.2)]
  else
    let o := run K rest sr.1 in
    Outcome (retval o) (final o) ((Setsockopt sock lvl opt v n, sr.2) :: trace o).
Proof.
  cbn. unfold int_ne, int_not.
  destruct (_ =? -1); reflexivity.
Qed.

Lemma enable_keepalive_refines K s sock en time interval maxpkt :
  run K (enable_keepalive sock en time interval maxpkt) s =
  apply_settings K s (steps sock en time interval maxpkt).
Proof.
  unfold enable_keepalive, steps.
  rewrite run_check_setsockopt. cbn [apply_settings]. cbv zeta.
  destruct (_ =? -1); [reflexivity|].
  rewrite run_check_setsockopt. cbv zeta.
  destruct (_ =? -1); [reflexivity|].
  rewrite run_check_setsockopt. cbv zeta.
  destruct (_ =? -1); [reflexivity|].
  rewrite run_check_setsockopt. cbv zeta.
  destruct (_ =? -1); reflexivity.
Qed.

(** ** Properties of the short-circuiting sequence *)

Section Sequence.
Variable K : kernel.

Ltac step_case s c :=
  cbn [apply_settings accepts]; cbv zeta;
  destruct (Z.eqb_spec (k_setsockopt K s c).2 (-1)) as [Hr|Hr];
  cbn [retval final trace negb andb].

Lemma apply_retval_01 cs s :
  retval (apply_settings K s cs) = 0 \/ retval (apply_settings K s cs) = 1.
Proof.
  revert s; induction cs as [|c cs IH]; intros s.
  - right; reflexivity.
  - step_case s c; [left; reflexivity | apply IH].
Qed.

Lemma apply_trace_prefix cs s :
  (trace (apply_settings K s cs)).*1 =
  take (length (trace (apply_settings K s cs))) cs.
Proof.
  revert s; induction cs as [|c cs IH]; intros s.
  - reflexivity.
  - step_case s c; [reflexivity|].
    cbn. f_equal. apply IH.
Qed.

Lemma apply_trace_le cs s :
  (length (trace (apply_settings K s cs)) <= length cs)%nat.
Proof.
  revert s; induction cs as [|c cs IH]; intros s.
  - reflexivity.
  - step_case s c; cbn; [lia|].
    specialize (IH (k_setsockopt K s c).1). lia.
Qed.

Lemma apply_trace_pos c cs s :
  (1 <= length (trace (apply_settings K s (c :: cs))))%nat.
Proof. step_case s c; cbn; lia. Qed.

Lemma apply_success_accepts cs s :
  retval (apply_settings K s cs) = 1 <-> accepts K s cs = true.
Proof.
  revert s; induction cs as [|c cs IH]; intros s.
  - split; reflexivity.
  - step_case s c; [split; discriminate | apply IH].
Qed.

Lemma apply_success_trace cs s :
  retval (apply_settings K s cs) = 1 <->
  length (trace (apply_settings K s cs)) = length cs /\
  Forall succeeded (trace (apply_settings K s cs)).
Proof.
  revert s; induction cs as [|c cs IH]; intros s.
  - split; [split; [reflexivity | constructor] | reflexivity].
  - step_case s c.
    + split; [discriminate|].
      intros [_ Hall]. inversion Hall as [|e l He _]; subst.
      unfold succeeded in He; cbn in He. contradiction.
    + rewrite IH. cbn [length]. split.
      * intros [Hlen Hall]. split; [congruence|].
        constructor; [exact Hr | exact Hall].
      * intros [Hlen Hall]. split; [congruence|].
        inversion Hall; assumption.
Qed.

(** A refused call is the last one of the run, everything before it was
    accepted, and the run reports failure. *)
Lemma apply_refused_last cs s (k : nat) c :
  trace (apply_settings K s cs) !! k = Some (c, -1) ->
  length (trace (apply_settings K s cs)) = S k /\
  retval (apply_settings K s cs) = 0 /\
  Forall succeeded (take k (trace (apply_settings K s cs))).
Proof.
  revert s k; induction cs as [|c0 cs IH]; intros s k.
  - discriminate.
  - step_case s c0.
    + destruct k as [|k]; [|discriminate].
      intros _. repeat split. constructor.
    + destruct k as [|k]; cbn.
      * intros [= _ Hk]. congruence.
      * intros Hk. destruct (IH _ _ Hk) as (Hlen & Hret & Hall).
        repeat split; [congruence | exact Hret |].
        constructor; [exact Hr | exact Hall].
Qed.

(** A run that reports failure ends in a refused call. *)
Lemma apply_failure_refused cs s :
  retval (apply_settings K s cs) = 0 ->
  exists c, last (trace (apply_settings K s cs)) = Some (c, -1).
Proof.
  revert s; induction cs as [|c0 cs IH]; intros s.
  - discriminate.
  - step_case s c0.
    + intros _. exists c0. rewrite Hr. reflexivity.
    + intros H0. destruct (IH _ H0) as [c Hc]. exists c.
      destruct (trace (apply_settings K (k_setsockopt K s c0).1 cs));
        [discriminate | exact Hc].
Qed.

(** An accepted call is followed by the next setting, if there is one. *)
Lemma apply_accepted_continues cs s (k : nat) c r :
  trace (apply_settings K s cs) !! k = Some (c, r) ->
  r <> -1 ->
  (S k < length cs)%nat ->
  (S k < length (trace (apply_settings K s cs)))%nat.
Proof.
  revert s k; induction cs as [|c0 cs IH]; intros s k.
  - discriminate.
  - step_case s c0.
    + destruct k as [|k]; [|discriminate].
      intros [= _ Hk]. congruence.
    + destruct k as [|k]; cbn.
      * intros _ _ Hlen.
        destruct cs as [|c1 cs]; [cbn in Hlen; lia|].
        pose proof (apply_trace_pos c1 cs (k_setsockopt K s c0).1). lia.
      * intros Hk Hne Hlen.
        specialize (IH _ _ Hk Hne). lia.
Qed.
End Sequence.

(** ** Settings left behind on a platform that stores them faithfully *)

Section Settings.
Variable K : kernel.
Hypothesis HK : faithful K.

(** A setting that no accepted call of the run addresses reads as it
    did before the run. *)
Lemma apply_frame cs s fd l o :
  (forall c r, (c, r) ∈ trace (apply_settings K s cs) ->
               r <> -1 -> sc_key c <> (fd, l, o)) ->
  k_getsockopt K (final (apply_settings K s cs)) fd l o =
  k_getsockopt K s fd l o.
Proof.
  revert s; induction cs as [|c0 cs IH]; intros s Hk.
  - reflexivity.
  - revert Hk. cbn [apply_settings]; cbv zeta.
    destruct (Z.eqb_spec (k_setsockopt K s c0).2 (-1)) as [Hr|Hr];
      cbn [retval final trace]; intros Hk.
    + apply (refused_frame K HK); exact Hr.
    + rewrite IH.
      * apply (accepted_frame K HK); [exact Hr|].
        intros Heq. apply (Hk c0 (k_setsockopt K s c0).2);
          [left | exact Hr | symmetry; exact Heq].
      * intros c r Hin. apply Hk. right; exact Hin.
Qed.

Lemma trace_call_in cs s c r :
  (c, r) ∈ trace (apply_settings K s cs) -> c ∈ cs.
Proof.
  intros Hin.
  assert (Hc : c ∈ (trace (apply_settings K s cs)).*1).
  { apply list_elem_of_fmap. exists (c, r). split; [reflexivity | exact Hin]. }
  rewrite apply_trace_prefix in Hc.
  eapply subseteq_take; exact Hc.
Qed.

(** The value of an accepted call is what its setting reads after the
    run, provided no two calls of the sequence address one setting. *)
Lemma apply_written cs s (k : nat) c r :
  NoDup (sc_key <$> cs) ->
  trace (apply_settings K s cs) !! k = Some (c, r) ->
  r <> -1 ->
  reads K (final (apply_settings K s cs)) c = Some (sc_optval c).
Proof.
  revert s k; induction cs as [|c0 cs IH]; intros s k Hnd.
  - discriminate.
  - apply NoDup_cons in Hnd as [Hnotin Hnd].
    cbn [apply_settings]; cbv zeta.
    destruct (Z.eqb_spec (k_setsockopt K s c0).2 (-1)) as [Hr|Hr];
      cbn [retval final trace].
    + destruct k as [|k]; [|discriminate].
      intros [= _ Hk] Hne. congruence.
    + destruct k as [|k]; cbn.
      * intros [= <- _] _. unfold reads.
        rewrite apply_frame.
        -- apply (accepted_write K HK); exact Hr.
        -- intros c r' Hin _ Heq. apply Hnotin.
           apply list_elem_of_fmap. exists c.
           split; [symmetry; exact Heq | eapply trace_call_in; exact Hin].
      * intros Hk Hne. eapply IH; eassumption.
Qed.

(** Calls stay acceptable along a run when acceptance is stable. *)
Lemma apply_keeps_acceptable cs s c :
  stable K ->
  (k_setsockopt K s c).2 <> -1 ->
  (k_setsockopt K (final (apply_settings K s cs)) c).2 <> -1.
Proof.
  intros Hst. revert s; induction cs as [|c0 cs IH]; intros s Hc.
  - exact Hc.
  - cbn [apply_settings]; cbv zeta.
    destruct (_ =? -1); cbn [final].
    + apply Hst; exact Hc.
    + apply IH. apply Hst; exact Hc.
Qed.

Lemma acceptable_accepts cs s :
  stable K ->
  Forall (fun c => (k_setsockopt K s c).2 <> -1) cs ->
  accepts K s cs = true.
Proof.
  intros Hst. revert s; induction cs as [|c0 cs IH]; intros s Hall.
  - reflexivity.
  - inversion Hall as [|x l H0 Hrest]; subst.
    cbn [accepts]; cbv zeta.
    apply andb_true_intro. split.
    + apply negb_true_iff. apply Z.eqb_neq. exact H0.
    + apply IH. eapply Forall_impl; [exact Hrest|].
      intros c Hc. apply Hst; exact Hc.
Qed.

Lemma accepts_acceptable_after cs s :
  stable K ->
  accepts K s cs = true ->
  Forall (fun c => (k_setsockopt K (final (apply_settings K s cs)) c).2 <> -1) cs.
Proof.
  intros Hst. revert s; induction cs as [|c0 cs IH]; intros s.
  - constructor.
  - cbn [accepts apply_settings]; cbv zeta.
    destruct (Z.eqb_spec (k_setsockopt K s c0).2 (-1)) as [Hr|Hr];
      cbn [negb andb final]; [discriminate|].
    intros Hacc. constructor.
    + apply apply_keeps_acceptable; [exact Hst|]. apply Hst; exact Hr.
    + apply IH; exact Hacc.
Qed.

Lemma accepts_again cs s :
  stable K ->
  accepts K s cs = true ->
  accepts K (final (apply_settings K s cs)) cs = true.
Proof.
  intros Hst Hacc.
  apply acceptable_accepts; [exact Hst|].
  apply accepts_acceptable_after; assumption.
Qed.
End Settings.

Lemma steps_keys_NoDup sock en time interval maxpkt :
  NoDup (sc_key <$> steps sock en time interval maxpkt).
Proof.
  unfold steps, sc_key; cbn.
  repeat (apply NoDup_cons; split;
    [rewrite ?elem_of_cons, elem_of_nil; intuition discriminate|]).
  apply NoDup_nil_2.
Qed.

(** ** The descriptor table is a faithful platform *)

Lemma opt_set_get l o v so so' :
  opt_set l o v so = Some so' -> opt_get l o so' = Some v.
Proof.
  destruct l, o; cbn; try discriminate;
    try (destruct (_ && _); [|discriminate]); intros [= <-]; reflexivity.
Qed.

Lemma opt_set_other l o v so so' l' o' :
  opt_set l o v so = Some so' -> (l', o') <> (l, o) ->
  opt_get l' o' so' = opt_get l' o' so.
Proof.
  destruct l, o; cbn; try discriminate;
    try (destruct (_ && _); [|discriminate]); intros [= <-] Hne;
    destruct l', o'; cbn; congruence.
Qed.

Lemma opt_set_any_socket l o v so1 so2 :
  is_Some (opt_set l o v so1) -> is_Some (opt_set l o v so2).
Proof.
  destruct l, o; cbn; try (intros [? [=]]; fail);
    try (destruct (_ && _)); intros [x Hx]; try discriminate; eauto.
Qed.

(** The three ways a call on the table ends. *)
Lemma table_setsockopt_cases strict t c :
  (table_setsockopt strict t c = (t, -1)) \/
  (exists so so', t !! sc_sock c = Some so /\
     opt_set (sc_level c) (sc_optname c) (sc_optval c) so = Some so' /\
     table_setsockopt strict t c = (<[sc_sock c := so']> t, 0)).
Proof.
  unfold table_setsockopt.
  destruct (t !! sc_sock c) as [so|] eqn:Hso; [|left; reflexivity].
  destruct (sc_optlen c <? sizeof_int); [left; reflexivity|].
  destruct (strict && is_tcp (sc_level c) && (so_keepalive so =? 0));
    [left; reflexivity|].
  destruct (opt_set _ _ _ so) as [so'|] eqn:Hset; [|left; reflexivity].
  right. exists so, so'. repeat split; reflexivity || assumption.
Qed.

Lemma table_kernel_faithful strict : faithful (table_kernel strict).
Proof.
  split; cbn.
  - intros t c fd l o.
    destruct (table_setsockopt_cases strict t c) as [->|(so & so' & _ & _ & ->)];
      cbn; [reflexivity | discriminate].
  - intros t c. unfold reads; cbn.
    destruct (table_setsockopt_cases strict t c) as [->|(so & so' & _ & Hset & ->)];
      cbn; [congruence|].
    intros _. unfold table_getsockopt. rewrite lookup_insert_eq.
    eapply opt_set_get; exact Hset.
  - intros t c fd l o.
    destruct (table_setsockopt_cases strict t c) as [->|(so & so' & Hso & Hset & ->)];
      cbn; [congruence|].
    intros _ Hne. unfold table_getsockopt, sc_key in *.
    destruct (decide (sc_sock c = fd)) as [<-|Hfd].
    + rewrite lookup_insert_eq, Hso.
      eapply opt_set_other; [exact Hset | congruence].
    + rewrite lookup_insert_ne by exact Hfd. reflexivity.
Qed.

Lemma table_accepts_iff t c :
  (table_setsockopt false t c).2 <> -1 <->
  exists so, t !! sc_sock c = Some so /\
    (sc_optlen c <? sizeof_int) = false /\
    is_Some (opt_set (sc_level c) (sc_optname c) (sc_optval c) so).
Proof.
  unfold table_setsockopt.
  destruct (t !! sc_sock c) as [so|]; cbn.
  - destruct (sc_optlen c <? sizeof_int); cbn.
    + split; [now intros H; elim H | intros (? & _ & [=] & _)].
    + destruct (opt_set _ _ _ so) as [so'|] eqn:Hset; cbn.
      * split; [|discriminate].
        intros _. exists so. rewrite Hset. eauto.
      * split; [now intros H; elim H|].
        intros (so1 & [= <-] & _ & [x Hx]). congruence.
  - split; [now intros H; elim H | intros (? & [=] & _)].
Qed.

Lemma table_kernel_stable : stable (table_kernel false).
Proof.
  intros t c c'; cbn.
  rewrite !table_accepts_iff.
  intros (so & Hso & Hlen & Hset).
  destruct (table_setsockopt_cases false t c') as [->|(so0 & so' & _ & _ & ->)];
    cbn; [eauto|].
  destruct (decide (sc_sock c' = sc_sock c)) as [->|Hfd].
  - exists so'. rewrite lookup_insert_eq.
    repeat split; [exact Hlen|].
    eapply opt_set_any_socket; exact Hset.
  - exists so. rewrite lookup_insert_ne by exact Hfd. eauto.
Qed.

Lemma closed_socket_rejects strict (t : gmap Z sockopts) sock :
  t !! sock = None -> rejects (table_kernel strict) t sock.
Proof.
  intros Hnone l o v n.
  change ((table_setsockopt strict t (Setsockopt sock l o v n)).2 = -1).
  unfold table_setsockopt. cbn [sc_sock].
  rewrite Hnone. reflexivity.
Qed.

(** ** Result and call sequence of [enable_keepalive] *)

(** C1. [enable_keepalive] returns 1 (true) exactly when the platform
    accepted all four setting calls.  A refused call is the last call of
    the run: every call before it was accepted, the settings after it are
    never attempted (the calls issued are the first [k+1] steps), and the
    result is 0 (false); a result of 0 always comes from such a call. *)
Theorem enable_keepalive_all_or_first_failure K s sock en time interval maxpkt :
  let o := run K (enable_keepalive sock en time interval maxpkt) s in
  (retval o = 1 <-> accepts K s (steps sock en time interval maxpkt) = true) /\
  (retval o = 1 <-> length (trace o) = 4%nat /\ Forall succeeded (trace o)) /\
  (trace o).*1 = take (length (trace o)) (steps sock en time interval maxpkt) /\
  (forall (k : nat) c, trace o !! k = Some (c, -1) ->
     retval o = 0 /\ length (trace o) = S k /\
     Forall succeeded (take k (trace o))) /\
  (retval o = 0 -> exists c, last (trace o) = Some (c, -1)).
Proof.
  intros o; subst o. rewrite enable_keepalive_refines.
  split; [apply apply_success_accepts|].
  split; [apply (apply_success_trace K (steps sock en time interval maxpkt))|].
  split; [apply apply_trace_prefix|].
  split; [|apply apply_failure_refused].
  intros k c Hk.
  destruct (apply_refused_last K _ _ _ _ Hk) as (Hlen & Hret & Hall).
  auto.
Qed.

(** C2. Every run issues its calls in the fixed order keepalive switch,
    idle time, probe interval, probe count, and nothing else: the calls
    made are the first [n] of the four steps for some [n] between 1 and
    4.  Each accepted step is followed by the next step of the order, so
    all four are applied when the platform accepts them, and a refused
    step at position [k] ends the sequence after the first [k+1] steps. *)
Theorem enable_keepalive_fixed_order K s sock en time interval maxpkt :
  let o := run K (enable_keepalive sock en time interval maxpkt) s in
  (exists n : nat, (1 <= n <= 4)%nat /\
     (trace o).*1 = take n (steps sock en time interval maxpkt)) /\
  (retval o = 1 -> (trace o).*1 = steps sock en time interval maxpkt) /\
  (accepts K s (steps sock en time interval maxpkt) = true ->
     (trace o).*1 = steps sock en time interval maxpkt) /\
  (forall (k : nat) c r, trace o !! k = Some (c, r) -> r <> -1 ->
     (k < 3)%nat ->
     (trace o).*1 !! S k = steps sock en time interval maxpkt !! S k /\
     is_Some ((trace o).*1 !! S k)) /\
  (forall (k : nat) c, trace o !! k = Some (c, -1) ->
     (trace o).*1 = take (S k) (steps sock en time interval maxpkt)).
Proof.
  intros o; subst o. rewrite enable_keepalive_refines.
  set (cs := steps sock en time interval maxpkt).
  assert (Hall : retval (apply_settings K s cs) = 1 ->
                 (trace (apply_settings K s cs)).*1 = cs).
  { intros H1. rewrite apply_trace_prefix.
    apply apply_success_trace in H1 as [-> _]. apply firstn_all. }
  split; [|split; [exact Hall|split; [|split]]].
  - exists (length (trace (apply_settings K s cs))).
    split; [|apply apply_trace_prefix].
    split; [apply apply_trace_pos | apply (apply_trace_le K cs)].
  - intros Hacc. apply Hall. apply apply_success_accepts. exact Hacc.
  - intros k c r Hk Hne Hlt.
    assert (Hnext : (S k < length (trace (apply_settings K s cs)))%nat).
    { apply (apply_accepted_continues K cs s k c r Hk Hne).
      subst cs; cbn. lia. }
    split.
    + rewrite apply_trace_prefix. apply lookup_take_lt. exact Hnext.
    + apply lookup_lt_is_Some_2. rewrite length_fmap. exact Hnext.
  - intros k c Hk.
    destruct (apply_refused_last K _ _ _ _ Hk) as (Hlen & _ & _).
    rewrite apply_trace_prefix, Hlen. reflexivity.
Qed.

(** C8. The component validates nothing itself: every call it issues is
    one of the four steps carrying the caller's value unchanged, the
    first step is always issued whatever the values are, a result of 0
    is always backed by a call the platform refused, and whenever the
    platform accepts the four calls the result is 1. *)
Theorem enable_keepalive_passes_values_verbatim K s sock en time interval maxpkt :
  let o := run K (enable_keepalive sock en time interval maxpkt) s in
  (forall c r, (c, r) ∈ trace o ->
     c = Setsockopt sock SOL_SOCKET SO_KEEPALIVE en sizeof_int \/
     c = Setsockopt sock IPPROTO_TCP TCP_KEEPIDLE time sizeof_int \/
     c = Setsockopt sock IPPROTO_TCP TCP_KEEPINTVL interval sizeof_int \/
     c = Setsockopt sock IPPROTO_TCP TCP_KEEPCNT maxpkt sizeof_int) /\
  (exists r, trace o !! 0%nat =
     Some (Setsockopt sock SOL_SOCKET SO_KEEPALIVE en sizeof_int, r)) /\
  (retval o = 0 -> exists c, (c, -1) ∈ trace o) /\
  (accepts K s (steps sock en time interval maxpkt) = true ->
     retval o = 1 /\ (trace o).*1 = steps sock en time interval maxpkt).
Proof.
  intros o; subst o. rewrite enable_keepalive_refines.
  split; [|split; [|split]].
  - intros c r Hin.
    assert (Hc : c ∈ steps sock en time interval maxpkt).
    { assert (Hc : c ∈ (trace (apply_settings K s
                           (steps sock en time interval maxpkt))).*1).
      { apply list_elem_of_fmap. exists (c, r). split; [reflexivity | exact Hin]. }
      rewrite apply_trace_prefix in Hc. eapply subseteq_take; exact Hc. }
    unfold steps in Hc. rewrite !elem_of_cons, elem_of_nil in Hc. tauto.
  - unfold steps. cbn [apply_settings]. cbv zeta.
    destruct (_ =? -1); cbn [trace]; eexists; reflexivity.
  - intros H0. destruct (apply_failure_refused K _ _ H0) as [c Hc].
    exists c. apply last_Some_elem_of. exact Hc.
  - intros Hacc. apply apply_success_accepts in Hacc.
    split; [exact Hacc|].
    rewrite apply_trace_prefix.
    apply apply_success_trace in Hacc as [-> _]. reflexivity.
Qed.

Lemma enable_keepalive_at_most_four sock en time interval maxpkt :
  at_most 4 (enable_keepalive sock en time interval maxpkt).
Proof.
  unfold enable_keepalive, check, setsockopt; cbn.
  do 4 (apply at_most_sys; intros ?; unfold int_ne, int_not;
        destruct (_ =? -1); cbn; [apply at_most_ret|]).
  apply at_most_ret.
Qed.

(** C9. Every run ends, after at least one and at most four calls on the
    handle, whatever the platform answers: the number of calls is the
    position of the first refused call, or four when none is refused, and
    no setting is attempted twice. *)
Theorem enable_keepalive_call_count K s sock en time interval maxpkt :
  let p := enable_keepalive sock en time interval maxpkt in
  let o := run K p s in
  at_most 4 p /\
  (1 <= length (trace o) <= 4)%nat /\
  (Forall succeeded (trace o) -> length (trace o) = 4%nat) /\
  (forall (k : nat) c, trace o !! k = Some (c, -1) -> length (trace o) = S k) /\
  NoDup (sc_key <$> (trace o).*1).
Proof.
  intros p o; subst p o.
  split; [apply enable_keepalive_at_most_four|].
  rewrite enable_keepalive_refines.
  set (cs := steps sock en time interval maxpkt).
  split; [split; [apply apply_trace_pos | apply (apply_trace_le K cs)]|].
  split; [|split].
  - intros Hall.
    destruct (apply_retval_01 K cs s) as [H0|H1].
    + destruct (apply_failure_refused K _ _ H0) as [c Hc].
      apply last_Some_elem_of in Hc.
      rewrite Forall_forall in Hall. specialize (Hall _ Hc).
      unfold succeeded in Hall; cbn in Hall. contradiction.
    + apply apply_success_trace in H1 as [Hlen _]. exact Hlen.
  - intros k c Hk. apply (apply_refused_last K _ _ _ _ Hk).
  - rewrite apply_trace_prefix, fmap_take.
    eapply sublist_NoDup; [apply steps_keys_NoDup | apply sublist_take].
Qed.

(** C10. The result is 0 or 1 and nothing else.  The first call is
    always issued, and a step counts as failed exactly when its call
    returned -1: the result is 0 if and only if some call of the run
    returned -1, and after any other return value, zero or not, the next
    setting is attempted, the fourth giving result 1. *)
Theorem enable_keepalive_result_values K s sock en time interval maxpkt :
  let o := run K (enable_keepalive sock en time interval maxpkt) s in
  (retval o = 0 \/ retval o = 1) /\
  (exists r, trace o !! 0%nat =
     Some (Setsockopt sock SOL_SOCKET SO_KEEPALIVE en sizeof_int, r)) /\
  (retval o = 0 <-> exists c, (c, -1) ∈ trace o) /\
  (forall (k : nat) c r, trace o !! k = Some (c, r) -> r <> -1 ->
     (k < 3)%nat -> (S k < length (trace o))%nat) /\
  (forall c r, trace o !! 3%nat = Some (c, r) -> r <> -1 -> retval o = 1).
Proof.
  intros o; subst o. rewrite enable_keepalive_refines.
  set (cs := steps sock en time interval maxpkt).
  split; [apply apply_retval_01|].
  split; [|split; [|split]].
  - subst cs. unfold steps. cbn [apply_settings]. cbv zeta.
    destruct (_ =? -1); cbn [trace]; eexists; reflexivity.
  - split.
    + intros H0. destruct (apply_failure_refused K _ _ H0) as [c Hc].
      exists c. apply last_Some_elem_of. exact Hc.
    + intros [c Hc]. apply list_elem_of_lookup in Hc as [k Hk].
      apply (apply_refused_last K _ _ _ _ Hk).
  - intros k c r Hk Hne Hlt.
    apply (apply_accepted_continues K cs s k c r Hk Hne).
    subst cs; cbn. lia.
  - intros c r Hk Hne.
    destruct (apply_retval_01 K cs s) as [H0|H1]; [|exact H1].
    exfalso.
    destruct (apply_failure_refused K _ _ H0) as [c' Hc'].
    rewrite last_lookup in Hc'.
    pose proof (apply_trace_le K cs s) as Hle.
    pose proof (lookup_lt_Some _ _ _ Hk) as Hlt.
    assert (Hcs : length cs = 4%nat) by reflexivity.
    assert (Hlen : length (trace (apply_settings K s cs)) = 4%nat) by lia.
    rewrite Hlen in Hc'. change (Nat.pred 4) with 3%nat in Hc'.
    rewrite Hk in Hc'. congruence.
Qed.

(** Return values other than -1, negative or not, let the sequence run
    to its end; -1 stops it at the first call. *)
Lemma enable_keepalive_const_kernel r sock en time interval maxpkt :
  retval (run (const_kernel r) (enable_keepalive sock en time interval maxpkt) tt) =
  (if r =? -1 then 0 else 1) /\
  length (trace (run (const_kernel r)
                   (enable_keepalive sock en time interval maxpkt) tt)) =
  (if r =? -1 then 1%nat else 4%nat).
Proof.
  rewrite enable_keepalive_refines. cbn.
  destruct (r =? -1); split; reflexivity.
Qed.

(** ** Settings after a run *)

Section NoRollback.
Variable K : kernel.
Hypothesis HK : faithful K.

Lemma trace_lookup_call cs s (j : nat) c r :
  trace (apply_settings K s cs) !! j = Some (c, r) -> cs !! j = Some c.
Proof.
  intros Hj.
  assert (Hc : (trace (apply_settings K s cs)).*1 !! j = Some c)
    by (rewrite list_lookup_fmap, Hj; reflexivity).
  rewrite apply_trace_prefix in Hc.
  apply lookup_take_Some in Hc as [Hc _]. exact Hc.
Qed.

Lemma call_lookup_trace cs s (j : nat) c :
  (j < length (trace (apply_settings K s cs)))%nat ->
  cs !! j = Some c ->
  exists r, trace (apply_settings K s cs) !! j = Some (c, r).
Proof.
  intros Hlt Hc.
  destruct (lookup_lt_is_Some_2 _ _ Hlt) as [[c' r] Hj].
  exists r. rewrite Hj.
  apply trace_lookup_call in Hj. congruence.
Qed.

(** Settings of the steps before the refused one hold the requested
    values. *)
Lemma apply_kept cs s (k j : nat) c c' :
  NoDup (sc_key <$> cs) ->
  trace (apply_settings K s cs) !! k = Some (c, -1) ->
  (j < k)%nat -> cs !! j = Some c' ->
  reads K (final (apply_settings K s cs)) c' = Some (sc_optval c').
Proof.
  intros Hnd Hk Hlt Hc'.
  destruct (apply_refused_last K _ _ _ _ Hk) as (Hlen & _ & Hall).
  destruct (call_lookup_trace cs s j c') as [r Hj]; [lia | exact Hc' |].
  apply (apply_written K HK cs s j c' r Hnd Hj).
  apply (Forall_lookup_1 _ _ j (c', r) Hall).
  rewrite lookup_take_lt by exact Hlt. exact Hj.
Qed.

(** Settings of the refused step and of the steps after it read as
    before the run. *)
Lemma apply_untouched cs s (k j : nat) c c' :
  NoDup (sc_key <$> cs) ->
  trace (apply_settings K s cs) !! k = Some (c, -1) ->
  (k <= j)%nat -> cs !! j = Some c' ->
  reads K (final (apply_settings K s cs)) c' = reads K s c'.
Proof.
  intros Hnd Hk Hle Hc'.
  destruct (apply_refused_last K _ _ _ _ Hk) as (Hlen & _ & _).
  unfold reads. apply (apply_frame K HK).
  intros c1 r1 Hin Hne Hkey.
  apply list_elem_of_lookup in Hin as [i Hi].
  pose proof (lookup_lt_Some _ _ _ Hi) as Hilt.
  assert (Hik : i <> k) by (intros ->; congruence).
  apply trace_lookup_call in Hi.
  assert (Hij : i = j).
  { apply (NoDup_lookup (sc_key <$> cs) i j (sc_key c1) Hnd).
    - rewrite list_lookup_fmap, Hi. reflexivity.
    - rewrite list_lookup_fmap, Hc'. cbn. unfold sc_key in *. congruence. }
  lia.
Qed.
End NoRollback.

(** C3. No rollback.  On a platform that stores settings faithfully, when
    the call at position [k] is refused (so the [k] calls before it were
    accepted) the result is 0, each earlier step's setting reads the
    requested value afterwards, and the settings of step [k] and of the
    later steps read what they read before the call.  In particular, when
    the idle-time call is refused, the keepalive switch holds the
    requested value and the idle time is unchanged. *)
Theorem enable_keepalive_no_rollback K s sock en time interval maxpkt :
  faithful K ->
  let o := run K (enable_keepalive sock en time interval maxpkt) s in
  (forall (k : nat) c, trace o !! k = Some (c, -1) ->
     retval o = 0 /\
     (forall (j : nat) c', (j < k)%nat ->
        steps sock en time interval maxpkt !! j = Some c' ->
        reads K (final o) c' = Some (sc_optval c')) /\
     (forall (j : nat) c', (k <= j)%nat ->
        steps sock en time interval maxpkt !! j = Some c' ->
        reads K (final o) c' = reads K s c')) /\
  (forall c, trace o !! 1%nat = Some (c, -1) ->
     k_getsockopt K (final o) sock SOL_SOCKET SO_KEEPALIVE = Some en /\
     k_getsockopt K (final o) sock IPPROTO_TCP TCP_KEEPIDLE =
     k_getsockopt K s sock IPPROTO_TCP TCP_KEEPIDLE).
Proof.
  intros HK o; subst o. rewrite enable_keepalive_refines.
  pose proof (steps_keys_NoDup sock en time interval maxpkt) as Hnd.
  split.
  - intros k c Hk. split; [apply (apply_refused_last K _ _ _ _ Hk)|].
    split; intros j c' Hj Hc'.
    + eapply apply_kept; eassumption.
    + eapply apply_untouched; eassumption.
  - intros c Hk. split.
    + apply (apply_kept K HK _ s 1 0 c
               (Setsockopt sock SOL_SOCKET SO_KEEPALIVE en sizeof_int) Hnd Hk);
        [lia | reflexivity].
    + apply (apply_untouched K HK _ s 1 1 c
               (Setsockopt sock IPPROTO_TCP TCP_KEEPIDLE time sizeof_int) Hnd Hk);
        [lia | reflexivity].
Qed.

Lemma enable_keepalive_no_rollback_witness :
  retval (run (table_kernel false) (enable_keepalive 3 1 (-5) 10 5) one_socket) = 0 /\
  table_getsockopt
    (final (run (table_kernel false) (enable_keepalive 3 1 (-5) 10 5) one_socket))
    3 SOL_SOCKET SO_KEEPALIVE = Some 1 /\
  table_getsockopt
    (final (run (table_kernel false) (enable_keepalive 3 1 (-5) 10 5) one_socket))
    3 IPPROTO_TCP TCP_KEEPIDLE = Some 7200.
Proof.
  destruct (enable_keepalive_no_rollback (table_kernel false) one_socket
              3 1 (-5) 10 5 (table_kernel_faithful false)) as [Hgen Hidle].
  destruct (Hgen 1%nat (Setsockopt 3 IPPROTO_TCP TCP_KEEPIDLE (-5) sizeof_int)
              eq_refl) as (Hret & _ & _).
  destruct (Hidle (Setsockopt 3 IPPROTO_TCP TCP_KEEPIDLE (-5) sizeof_int)
              eq_refl) as [Hon Hsame].
  split; [exact Hret|]. split; [exact Hon|].
  etransitivity; [exact Hsame | reflexivity].
Defined.

(** ** Settings as the platform stores them *)

Section Stored.
Variable K : kernel.
Variable norm : level -> optname -> Z -> Z.
Hypothesis HS : stores K norm.

Lemma apply_frame_stored cs s fd l o :
  (forall c r, (c, r) ∈ trace (apply_settings K s cs) ->
               r <> -1 -> sc_key c <> (fd, l, o)) ->
  k_getsockopt K (final (apply_settings K s cs)) fd l o =
  k_getsockopt K s fd l o.
Proof.
  revert s; induction cs as [|c0 cs IH]; intros s Hk.
  - reflexivity.
  - revert Hk. cbn [apply_settings]; cbv zeta.
    destruct (Z.eqb_spec (k_setsockopt K s c0).2 (-1)) as [Hr|Hr];
      cbn [retval final trace]; intros Hk.
    + apply (st_refused_frame K norm HS); exact Hr.
    + rewrite IH.
      * apply (st_accepted_frame K norm HS); [exact Hr|].
        intros Heq. apply (Hk c0 (k_setsockopt K s c0).2);
          [left | exact Hr | symmetry; exact Heq].
      * intros c r Hin. apply Hk. right; exact Hin.
Qed.

(** After a run in which nothing was refused, each setting of a sequence
    without repeated settings reads what the platform stores for the
    value requested. *)
Lemma apply_success_stored cs s (j : nat) c :
  NoDup (sc_key <$> cs) ->
  retval (apply_settings K s cs) = 1 ->
  cs !! j = Some c ->
  reads K (final (apply_settings K s cs)) c =
  Some (norm (sc_level c) (sc_optname c) (sc_optval c)).
Proof.
  revert s j; induction cs as [|c0 cs IH]; intros s j Hnd.
  - discriminate.
  - apply NoDup_cons in Hnd as [Hnotin Hnd].
    cbn [apply_settings]; cbv zeta.
    destruct (Z.eqb_spec (k_setsockopt K s c0).2 (-1)) as [Hr|Hr];
      cbn [retval final trace]; [discriminate|].
    intros Hret. destruct j as [|j]; cbn.
    + intros [= <-]. unfold reads.
      rewrite apply_frame_stored.
      * apply (st_accepted_write K norm HS); exact Hr.
      * intros c r Hin _ Heq. apply Hnotin.
        apply list_elem_of_fmap. exists c.
        split; [symmetry; exact Heq | eapply trace_call_in; exact Hin].
    + intros Hc. eapply IH; eassumption.
Qed.
End Stored.

Lemma flag_kernel_stores : stores flag_kernel stored_value.
Proof.
  pose proof (table_kernel_faithful false) as HT.
  split; cbn.
  - intros t c fd l o.
    apply (refused_frame _ HT t
             (Setsockopt (sc_sock c) (sc_level c) (sc_optname c)
                (stored_value (sc_level c) (sc_optname c) (sc_optval c))
                (sc_optlen c))).
  - intros t c.
    apply (accepted_write _ HT t
             (Setsockopt (sc_sock c) (sc_level c) (sc_optname c)
                (stored_value (sc_level c) (sc_optname c) (sc_optval c))
                (sc_optlen c))).
  - intros t c fd l o.
    apply (accepted_frame _ HT t
             (Setsockopt (sc_sock c) (sc_level c) (sc_optname c)
                (stored_value (sc_level c) (sc_optname c) (sc_optval c))
                (sc_optlen c))).
Qed.

(** A platform that stores settings faithfully stores each value as
    given. *)
Lemma faithful_stores K : faithful K -> stores K (fun _ _ v => v).
Proof.
  intros [Hrf Haw Haf]. split; assumption.
Qed.

(** C4, as the code and a flag-keeping platform have it.  When the
    platform accepts the four calls, [enable_keepalive] returns 1 and
    each of the four settings then reads back as the platform stores the
    value requested for it: [norm] of that value, which is the value
    itself wherever the platform keeps values as given. *)
Theorem enable_keepalive_applies_stored_settings
    K norm s sock en time interval maxpkt :
  stores K norm ->
  accepts K s (steps sock en time interval maxpkt) = true ->
  let o := run K (enable_keepalive sock en time interval maxpkt) s in
  retval o = 1 /\
  k_getsockopt K (final o) sock SOL_SOCKET SO_KEEPALIVE =
    Some (norm SOL_SOCKET SO_KEEPALIVE en) /\
  k_getsockopt K (final o) sock IPPROTO_TCP TCP_KEEPIDLE =
    Some (norm IPPROTO_TCP TCP_KEEPIDLE time) /\
  k_getsockopt K (final o) sock IPPROTO_TCP TCP_KEEPINTVL =
    Some (norm IPPROTO_TCP TCP_KEEPINTVL interval) /\
  k_getsockopt K (final o) sock IPPROTO_TCP TCP_KEEPCNT =
    Some (norm IPPROTO_TCP TCP_KEEPCNT maxpkt).
Proof.
  intros HS Hacc o; subst o. rewrite enable_keepalive_refines.
  set (cs := steps sock en time interval maxpkt) in *.
  apply apply_success_accepts in Hacc.
  split; [exact Hacc|].
  pose proof (steps_keys_NoDup sock en time interval maxpkt) as Hnd.
  repeat split.
  - apply (apply_success_stored K norm HS cs s 0
             (Setsockopt sock SOL_SOCKET SO_KEEPALIVE en sizeof_int) Hnd Hacc).
    reflexivity.
  - apply (apply_success_stored K norm HS cs s 1
             (Setsockopt sock IPPROTO_TCP TCP_KEEPIDLE time sizeof_int) Hnd Hacc).
    reflexivity.
  - apply (apply_success_stored K norm HS cs s 2
             (Setsockopt sock IPPROTO_TCP TCP_KEEPINTVL interval sizeof_int)
             Hnd Hacc).
    reflexivity.
  - apply (apply_success_stored K norm HS cs s 3
             (Setsockopt sock IPPROTO_TCP TCP_KEEPCNT maxpkt sizeof_int) Hnd Hacc).
    reflexivity.
Qed.

(** On the flag-keeping table: [(3, 1, 60, 10, 5)] returns 1 and the
    idle time then reads 60; [(3, 5, 60, 10, 5)] returns 1 as well, the
    idle time reads 60 and the keepalive switch reads 1. *)
Lemma enable_keepalive_applies_stored_settings_witness :
  (retval (run flag_kernel (enable_keepalive 3 1 60 10 5) one_socket) = 1 /\
   table_getsockopt
     (final (run flag_kernel (enable_keepalive 3 1 60 10 5) one_socket))
     3 IPPROTO_TCP TCP_KEEPIDLE = Some 60) /\
  (retval (run flag_kernel (enable_keepalive 3 5 60 10 5) one_socket) = 1 /\
   table_getsockopt
     (final (run flag_kernel (enable_keepalive 3 5 60 10 5) one_socket))
     3 SOL_SOCKET SO_KEEPALIVE = Some 1 /\
   table_getsockopt
     (final (run flag_kernel (enable_keepalive 3 5 60 10 5) one_socket))
     3 IPPROTO_TCP TCP_KEEPIDLE = Some 60).
Proof.
  split.
  - destruct (enable_keepalive_applies_stored_settings flag_kernel stored_value
                one_socket 3 1 60 10 5 flag_kernel_stores eq_refl)
      as (Hret & _ & Hidle & _).
    split; [exact Hret | exact Hidle].
  - destruct (enable_keepalive_applies_stored_settings flag_kernel stored_value
                one_socket 3 5 60 10 5 flag_kernel_stores eq_refl)
      as (Hret & Hon & Hidle & _).
    split; [exact Hret|]. split; [exact Hon | exact Hidle].
Defined.

(** The read-back is not always the value requested: on the flag-keeping
    table the four calls of [(3, 5, 60, 10, 5)] are accepted and the
    result is 1, yet the keepalive switch reads 1, not 5. *)
Lemma enable_keepalive_exact_readback_counterexample :
  accepts flag_kernel one_socket (steps 3 5 60 10 5) = true /\
  retval (run flag_kernel (enable_keepalive 3 5 60 10 5) one_socket) = 1 /\
  k_getsockopt flag_kernel
    (final (run flag_kernel (enable_keepalive 3 5 60 10 5) one_socket))
    3 SOL_SOCKET SO_KEEPALIVE = Some 1 /\
  k_getsockopt flag_kernel
    (final (run flag_kernel (enable_keepalive 3 5 60 10 5) one_socket))
    3 SOL_SOCKET SO_KEEPALIVE <> Some 5.
Proof.
  split; [reflexivity|]. split; [reflexivity|]. split; [reflexivity|].
  vm_compute. discriminate.
Qed.

(** C5. When the platform refuses configuration calls on the handle (it
    is closed or invalid), [enable_keepalive] returns 0 whatever the four
    values are, after the single call that was refused. *)
Theorem enable_keepalive_invalid_handle K s sock en time interval maxpkt :
  rejects K s sock ->
  let o := run K (enable_keepalive sock en time interval maxpkt) s in
  retval o = 0 /\ length (trace o) = 1%nat.
Proof.
  intros Hrej o; subst o. rewrite enable_keepalive_refines.
  unfold steps. cbn [apply_settings]. cbv zeta.
  rewrite (Hrej SOL_SOCKET SO_KEEPALIVE en sizeof_int).
  split; reflexivity.
Qed.

Lemma enable_keepalive_invalid_handle_witness :
  retval (run (table_kernel false) (enable_keepalive 4 1 60 10 5) one_socket) = 0 /\
  length (trace (run (table_kernel false) (enable_keepalive 4 1 60 10 5)
                   one_socket)) = 1%nat.
Proof.
  apply (enable_keepalive_invalid_handle (table_kernel false) one_socket
           4 1 60 10 5).
  apply closed_socket_rejects. reflexivity.
Defined.

(** C6. Idempotence.  On a platform that stores settings faithfully and
    whose acceptance is stable, if the four calls are accepted then two
    invocations in a row with the same values both return 1, and every
    setting reads the same after the second as after the first. *)
Theorem enable_keepalive_idempotent K s sock en time interval maxpkt :
  faithful K ->
  stable K ->
  accepts K s (steps sock en time interval maxpkt) = true ->
  let o1 := run K (enable_keepalive sock en time interval maxpkt) s in
  let o2 := run K (enable_keepalive sock en time interval maxpkt) (final o1) in
  retval o1 = 1 /\ retval o2 = 1 /\
  forall fd l o,
    k_getsockopt K (final o2) fd l o = k_getsockopt K (final o1) fd l o.
Proof.
  intros HK Hst Hacc o1 o2; subst o1 o2. rewrite !enable_keepalive_refines.
  set (cs := steps sock en time interval maxpkt) in *.
  pose proof (steps_keys_NoDup sock en time interval maxpkt) as Hnd.
  pose proof (accepts_again K cs s Hst Hacc) as Hacc2.
  apply apply_success_accepts in Hacc, Hacc2.
  split; [exact Hacc|]. split; [exact Hacc2|].
  set (s1 := final (apply_settings K s cs)) in *.
  apply apply_success_trace in Hacc as [Hlen1 Hall1].
  apply apply_success_trace in Hacc2 as [Hlen2 Hall2].
  intros fd l o.
  destruct (decide ((fd, l, o) ∈ sc_key <$> cs)) as [Hin|Hout].
  - apply list_elem_of_fmap in Hin as (c & Hkey & Hc).
    apply list_elem_of_lookup in Hc as [j Hj].
    pose proof (lookup_lt_Some _ _ _ Hj) as Hjlt.
    destruct (call_lookup_trace K cs s j c) as [r1 Hj1]; [lia | exact Hj |].
    destruct (call_lookup_trace K cs s1 j c) as [r2 Hj2]; [lia | exact Hj |].
    pose proof (apply_written K HK cs s j c r1 Hnd Hj1
                  (Forall_lookup_1 _ _ j (c, r1) Hall1 Hj1)) as Hw1.
    pose proof (apply_written K HK cs s1 j c r2 Hnd Hj2
                  (Forall_lookup_1 _ _ j (c, r2) Hall2 Hj2)) as Hw2.
    unfold reads, sc_key in *. fold s1 in Hw1.
    injection Hkey as -> -> ->. congruence.
  - apply (apply_frame K HK).
    intros c r Hin _ Hkey. apply Hout.
    apply list_elem_of_fmap. exists c.
    split; [symmetry; exact Hkey | eapply trace_call_in; exact Hin].
Qed.

Lemma enable_keepalive_idempotent_witness :
  retval (run (table_kernel false) (enable_keepalive 3 1 60 10 5) one_socket) = 1 /\
  retval (run (table_kernel false) (enable_keepalive 3 1 60 10 5)
            (final (run (table_kernel false) (enable_keepalive 3 1 60 10 5)
                      one_socket))) = 1 /\
  forall fd l o,
    table_getsockopt
      (final (run (table_kernel false) (enable_keepalive 3 1 60 10 5)
                (final (run (table_kernel false) (enable_keepalive 3 1 60 10 5)
                          one_socket)))) fd l o =
    table_getsockopt
      (final (run (table_kernel false) (enable_keepalive 3 1 60 10 5) one_socket))
      fd l o.
Proof.
  exact (enable_keepalive_idempotent (table_kernel false) one_socket 3 1 60 10 5
           (table_kernel_faithful false) table_kernel_stable eq_refl).
Defined.

Lemma apply_accepted_head K s c cs :
  (k_setsockopt K s c).2 <> -1 ->
  apply_settings K s (c :: cs) =
  Outcome (retval (apply_settings K (k_setsockopt K s c).1 cs))
          (final (apply_settings K (k_setsockopt K s c).1 cs))
          ((c, (k_setsockopt K s c).2)
             :: trace (apply_settings K (k_setsockopt K s c).1 cs)).
Proof.
  intros Hne. cbn [apply_settings]; cbv zeta.
  destruct (Z.eqb_spec (k_setsockopt K s c).2 (-1)); [contradiction | reflexivity].
Qed.

(** C7. Calling with [enabled = 0] on a platform that stores settings
    faithfully and accepts the first call: keepalive reads 0 afterwards
    whatever the three other values are.  When the platform accepts the
    later options on the now keepalive-disabled socket the result is 1;
    when it refuses one of them the result is 0, reached after the
    accepted disabling call. *)
Theorem enable_keepalive_disable K s sock time interval maxpkt :
  faithful K ->
  (k_setsockopt K s (Setsockopt sock SOL_SOCKET SO_KEEPALIVE 0 sizeof_int)).2 <> -1 ->
  let o := run K (enable_keepalive sock 0 time interval maxpkt) s in
  let s1 :=
    (k_setsockopt K s (Setsockopt sock SOL_SOCKET SO_KEEPALIVE 0 sizeof_int)).1 in
  let later := drop 1 (steps sock 0 time interval maxpkt) in
  k_getsockopt K (final o) sock SOL_SOCKET SO_KEEPALIVE = Some 0 /\
  (accepts K s1 later = true -> retval o = 1) /\
  (accepts K s1 later = false ->
     retval o = 0 /\ (2 <= length (trace o))%nat /\
     exists r, r <> -1 /\ trace o !! 0%nat =
       Some (Setsockopt sock SOL_SOCKET SO_KEEPALIVE 0 sizeof_int, r)).
Proof.
  intros HK Hfirst o s1 later; subst o.
  rewrite enable_keepalive_refines.
  pose proof (steps_keys_NoDup sock 0 time interval maxpkt) as Hnd.
  set (c0 := Setsockopt sock SOL_SOCKET SO_KEEPALIVE 0 sizeof_int) in *.
  change (steps sock 0 time interval maxpkt) with (c0 :: later) in Hnd.
  change (steps sock 0 time interval maxpkt) with (c0 :: later).
  assert (Hhead : trace (apply_settings K s (c0 :: later)) !! 0%nat =
                  Some (c0, (k_setsockopt K s c0).2))
    by (rewrite apply_accepted_head by exact Hfirst; reflexivity).
  split.
  - apply (apply_written K HK (c0 :: later) s 0 c0 _ Hnd Hhead Hfirst).
  - rewrite apply_accepted_head by exact Hfirst. cbn [retval trace].
    fold s1. split.
    + apply apply_success_accepts.
    + intros Hno.
      destruct (apply_retval_01 K later s1) as [H0|H1].
      * split; [exact H0|]. split.
        -- pose proof (apply_trace_pos K
                         (Setsockopt sock IPPROTO_TCP TCP_KEEPIDLE time sizeof_int)
                         (drop 2 (steps sock 0 time interval maxpkt)) s1) as Hpos.
           cbn [length]. change later with
             (Setsockopt sock IPPROTO_TCP TCP_KEEPIDLE time sizeof_int
                :: drop 2 (steps sock 0 time interval maxpkt)). lia.
        -- exists (k_setsockopt K s c0).2. split; [exact Hfirst | reflexivity].
      * apply apply_success_accepts in H1. congruence.
Qed.

Lemma enable_keepalive_disable_witness :
  table_getsockopt
    (final (run (table_kernel true) (enable_keepalive 3 0 60 10 5) live_socket))
    3 SOL_SOCKET SO_KEEPALIVE = Some 0 /\
  retval (run (table_kernel true) (enable_keepalive 3 0 60 10 5) live_socket) = 0.
Proof.
  destruct (enable_keepalive_disable (table_kernel true) live_socket 3 60 10 5
              (table_kernel_faithful true)) as (Hoff & _ & Hrefused).
  - vm_compute. discriminate.
  - split; [exact Hoff|].
    destruct (Hrefused eq_refl) as (Hret & _). exact Hret.
Defined.

(** ** The [check] macro on its own *)

Lemma run_bind K (e : prog Z) (f : Z -> prog Z) s :
  run K (bind e f) s =
  Outcome (retval (run K (f (retval (run K e s))) (final (run K e s))))
          (final (run K (f (retval (run K e s))) (final (run K e s))))
          (trace (run K e s)
             ++ trace (run K (f (retval (run K e s))) (final (run K e s)))).
Proof.
  revert s; induction e as [a|c k IH]; intros s.
  - cbn. destruct (run K (f a) s); reflexivity.
  - cbn [bind run retval final trace]. cbv zeta. rewrite IH. reflexivity.
Qed.

(** X1. The macro [check(expr)] leaves the enclosing function with 0
    exactly when [expr] evaluates to 0, after the calls [expr] made and
    without running anything that follows; for every other value of
    [expr], not only 1, the rest of the body runs in the state [expr]
    left and its calls follow those of [expr]. *)
Theorem check_returns_zero_or_continues K (e rest : prog Z) s :
  let oe := run K e s in
  run K (check e rest) s =
  if retval oe =? 0 then Outcome 0 (final oe) (trace oe)
  else
    let o := run K rest (final oe) in
    Outcome (retval o) (final o) (trace oe ++ trace o).
Proof.
  intros oe; subst oe. unfold check.
  change (run K (bind e (fun v => if int_not v =? 0 then rest else Ret 0)) s = 
          if retval (run K e s) =? 0
          then Outcome 0 (final (run K e s)) (trace (run K e s))
          else Outcome (retval (run K rest (final (run K e s))))
                       (final (run K rest (final (run K e s))))
                       (trace (run K e s) ++ trace (run K rest (final (run K e s))))).
  rewrite run_bind. unfold int_not.
  destruct (retval (run K e s) =? 0); cbn; [|reflexivity].
  rewrite app_nil_r. reflexivity.
Qed.

(** ** Other handles, refused first calls and repeated configuration *)

Section Frame.
Variable K : kernel.
Hypothesis HK : faithful K.

(** A sequence of calls on one descriptor leaves the settings of every
    other descriptor as they were. *)
Lemma apply_other_descriptor cs s sock fd l o :
  Forall (fun c => sc_sock c = sock) cs ->
  fd <> sock ->
  k_getsockopt K (final (apply_settings K s cs)) fd l o =
  k_getsockopt K s fd l o.
Proof.
  intros Hsock Hfd. apply (apply_frame K HK).
  intros c r Hin _ Hkey.
  apply trace_call_in in Hin.
  rewrite Forall_forall in Hsock. specialize (Hsock c Hin).
  unfold sc_key in Hkey. congruence.
Qed.

(** After a run in which nothing was refused each setting of the
    sequence reads the value requested. *)
Lemma apply_success_reads cs s (j : nat) c :
  NoDup (sc_key <$> cs) ->
  retval (apply_settings K s cs) = 1 ->
  cs !! j = Some c ->
  reads K (final (apply_settings K s cs)) c = Some (sc_optval c).
Proof.
  intros Hnd Hret Hc.
  apply apply_success_trace in Hret as [Hlen Hall].
  destruct (call_lookup_trace K cs s j c) as [r Hj]; [|exact Hc|].
  - rewrite Hlen. eapply lookup_lt_Some; exact Hc.
  - apply (apply_written K HK cs s j c r Hnd Hj).
    apply (Forall_lookup_1 _ _ j (c, r) Hall Hj).
Qed.
End Frame.

Lemma steps_same_descriptor sock en time interval maxpkt :
  Forall (fun c => sc_sock c = sock) (steps sock en time interval maxpkt).
Proof. unfold steps. repeat constructor. Qed.

(** Steps at the same position address the same setting, whatever the
    values they carry. *)
Lemma steps_same_key sock a1 a2 a3 a4 b1 b2 b3 b4 (j : nat) ca cb :
  steps sock a1 a2 a3 a4 !! j = Some ca ->
  steps sock b1 b2 b3 b4 !! j = Some cb ->
  sc_sock ca = sc_sock cb /\ sc_level ca = sc_level cb /\
  sc_optname ca = sc_optname cb.
Proof.
  unfold steps.
  destruct j as [|[|[|[|j]]]]; cbn; try discriminate;
    intros [= <-] [= <-]; repeat split.
Qed.

(** X2. On a platform that stores settings faithfully a run of
    [enable_keepalive] on one descriptor, successful or not, leaves every
    setting of every other descriptor as it was. *)
Theorem enable_keepalive_other_handles_untouched
    K s sock en time interval maxpkt :
  faithful K ->
  let out := run K (enable_keepalive sock en time interval maxpkt) s in
  forall fd l o, fd <> sock ->
    k_getsockopt K (final out) fd l o = k_getsockopt K s fd l o.
Proof.
  intros HK out fd l o Hfd; subst out. rewrite enable_keepalive_refines.
  apply (apply_other_descriptor K HK _ s sock);
    [apply steps_same_descriptor | exact Hfd].
Qed.

Lemma enable_keepalive_other_handles_untouched_witness :
  retval (run (table_kernel false) (enable_keepalive 3 1 60 10 5) two_sockets) = 1 /\
  table_getsockopt
    (final (run (table_kernel false) (enable_keepalive 3 1 60 10 5) two_sockets))
    4 IPPROTO_TCP TCP_KEEPIDLE = Some 30.
Proof.
  split; [reflexivity|].
  etransitivity.
  - apply (enable_keepalive_other_handles_untouched (table_kernel false)
             two_sockets 3 1 60 10 5 (table_kernel_faithful false)
             4 IPPROTO_TCP TCP_KEEPIDLE).
    discriminate.
  - reflexivity.
Defined.

(** X3. On a platform that stores settings faithfully, when the very
    first call is refused (an invalid handle, for instance) the function
    returns 0 and no setting of any descriptor has changed. *)
Theorem enable_keepalive_first_refusal_changes_nothing
    K s sock en time interval maxpkt :
  faithful K ->
  (k_setsockopt K s (Setsockopt sock SOL_SOCKET SO_KEEPALIVE en sizeof_int)).2 = -1 ->
  let out := run K (enable_keepalive sock en time interval maxpkt) s in
  retval out = 0 /\
  forall fd l o, k_getsockopt K (final out) fd l o = k_getsockopt K s fd l o.
Proof.
  intros HK Hfirst out; subst out. rewrite enable_keepalive_refines.
  unfold steps. cbn [apply_settings]. cbv zeta.
  rewrite Hfirst. cbn [Z.eqb Pos.eqb retval final].
  split; [reflexivity|].
  intros fd l o. apply (refused_frame K HK). exact Hfirst.
Qed.

Lemma enable_keepalive_first_refusal_changes_nothing_witness :
  retval (run (table_kernel false) (enable_keepalive 5 1 60 10 5) two_sockets) = 0 /\
  forall fd l o,
    table_getsockopt
      (final (run (table_kernel false) (enable_keepalive 5 1 60 10 5) two_sockets))
      fd l o =
    table_getsockopt two_sockets fd l o.
Proof.
  exact (enable_keepalive_first_refusal_changes_nothing (table_kernel false)
           two_sockets 5 1 60 10 5 (table_kernel_faithful false) eq_refl).
Defined.

(** X4. A failed reconfiguration leaves a mixture.  On a platform that
    stores settings faithfully, if a first invocation succeeded with
    values [a] and a second one with values [b] on the same descriptor is
    refused at position [k], the second returns 0, the settings of the
    steps before [k] read the new values [b], and the settings of step
    [k] and after still read the old values [a]. *)
Theorem enable_keepalive_failed_reconfiguration
    K s sock a1 a2 a3 a4 b1 b2 b3 b4 (k : nat) c :
  faithful K ->
  let o1 := run K (enable_keepalive sock a1 a2 a3 a4) s in
  let o2 := run K (enable_keepalive sock b1 b2 b3 b4) (final o1) in
  retval o1 = 1 ->
  trace o2 !! k = Some (c, -1) ->
  retval o2 = 0 /\
  forall (j : nat) ca cb,
    steps sock a1 a2 a3 a4 !! j = Some ca ->
    steps sock b1 b2 b3 b4 !! j = Some cb ->
    ((j < k)%nat -> reads K (final o2) cb = Some (sc_optval cb)) /\
    ((k <= j)%nat -> reads K (final o2) cb = Some (sc_optval ca)).
Proof.
  intros HK o1 o2; subst o1 o2. rewrite !enable_keepalive_refines.
  intros Hret1 Hk.
  pose proof (steps_keys_NoDup sock a1 a2 a3 a4) as Hnda.
  pose proof (steps_keys_NoDup sock b1 b2 b3 b4) as Hndb.
  split; [apply (apply_refused_last K _ _ _ _ Hk)|].
  intros j ca cb Hca Hcb. split; intros Hj.
  - eapply apply_kept; eassumption.
  - rewrite (apply_untouched K HK _ _ k j c cb Hndb Hk Hj Hcb).
    destruct (steps_same_key _ _ _ _ _ _ _ _ _ _ _ _ Hca Hcb) as (Hs & Hl & Ho).
    pose proof (apply_success_reads K HK _ s j ca Hnda Hret1 Hca) as Hold.
    unfold reads in *. rewrite <- Hs, <- Hl, <- Ho. exact Hold.
Qed.

Lemma enable_keepalive_failed_reconfiguration_witness :
  retval (run (table_kernel false) (enable_keepalive 3 1 120 (-1) 9)
            (final (run (table_kernel false) (enable_keepalive 3 1 60 10 5)
                      one_socket))) = 0 /\
  table_getsockopt
    (final (run (table_kernel false) (enable_keepalive 3 1 120 (-1) 9)
              (final (run (table_kernel false) (enable_keepalive 3 1 60 10 5)
                        one_socket))))
    3 IPPROTO_TCP TCP_KEEPIDLE = Some 120 /\
  table_getsockopt
    (final (run (table_kernel false) (enable_keepalive 3 1 120 (-1) 9)
              (final (run (table_kernel false) (enable_keepalive 3 1 60 10 5)
                        one_socket))))
    3 IPPROTO_TCP TCP_KEEPCNT = Some 5.
Proof.
  destruct (enable_keepalive_failed_reconfiguration (table_kernel false)
              one_socket 3 1 60 10 5 1 120 (-1) 9 2%nat
              (Setsockopt 3 IPPROTO_TCP TCP_KEEPINTVL (-1) sizeof_int)
              (table_kernel_faithful false) eq_refl eq_refl) as [Hret Hmix].
  split; [exact Hret|]. split.
  - apply (Hmix 1%nat (Setsockopt 3 IPPROTO_TCP TCP_KEEPIDLE 60 sizeof_int)
             (Setsockopt 3 IPPROTO_TCP TCP_KEEPIDLE 120 sizeof_int)
             eq_refl eq_refl).
    lia.
  - apply (Hmix 3%nat (Setsockopt 3 IPPROTO_TCP TCP_KEEPCNT 5 sizeof_int)
             (Setsockopt 3 IPPROTO_TCP TCP_KEEPCNT 9 sizeof_int)
             eq_refl eq_refl).
    lia.
Defined.

(** X5. Handles are configured independently.  On a platform that stores
    settings faithfully, once an invocation on descriptor [sockA] has
    succeeded, a later invocation on a different descriptor [sockB],
    whatever its values and whether it succeeds or not, leaves the four
    settings of [sockA] at the values requested for it. *)
Theorem enable_keepalive_handles_independent
    K s sockA a1 a2 a3 a4 sockB b1 b2 b3 b4 :
  faithful K ->
  sockA <> sockB ->
  let oA := run K (enable_keepalive sockA a1 a2 a3 a4) s in
  let oB := run K (enable_keepalive sockB b1 b2 b3 b4) (final oA) in
  retval oA = 1 ->
  k_getsockopt K (final oB) sockA SOL_SOCKET SO_KEEPALIVE = Some a1 /\
  k_getsockopt K (final oB) sockA IPPROTO_TCP TCP_KEEPIDLE = Some a2 /\
  k_getsockopt K (final oB) sockA IPPROTO_TCP TCP_KEEPINTVL = Some a3 /\
  k_getsockopt K (final oB) sockA IPPROTO_TCP TCP_KEEPCNT = Some a4.
Proof.
  intros HK Hne oA oB; subst oA oB. rewrite !enable_keepalive_refines.
  intros Hret.
  pose proof (steps_keys_NoDup sockA a1 a2 a3 a4) as Hnd.
  pose proof (steps_same_descriptor sockB b1 b2 b3 b4) as HB.
  rewrite !(apply_other_descriptor K HK _ _ sockB sockA _ _ HB Hne).
  repeat split.
  - apply (apply_success_reads K HK _ s 0
             (Setsockopt sockA SOL_SOCKET SO_KEEPALIVE a1 sizeof_int) Hnd Hret).
    reflexivity.
  - apply (apply_success_reads K HK _ s 1
             (Setsockopt sockA IPPROTO_TCP TCP_KEEPIDLE a2 sizeof_int) Hnd Hret).
    reflexivity.
  - apply (apply_success_reads K HK _ s 2
             (Setsockopt sockA IPPROTO_TCP TCP_KEEPINTVL a3 sizeof_int) Hnd Hret).
    reflexivity.
  - apply (apply_success_reads K HK _ s 3
             (Setsockopt sockA IPPROTO_TCP TCP_KEEPCNT a4 sizeof_int) Hnd Hret).
    reflexivity.
Qed.

Lemma enable_keepalive_handles_independent_witness :
  table_getsockopt
    (final (run (table_kernel false) (enable_keepalive 4 0 (-7) 1 1)
              (final (run (table_kernel false) (enable_keepalive 3 1 60 10 5)
                        two_sockets))))
    3 IPPROTO_TCP TCP_KEEPIDLE = Some 60.
Proof.
  destruct (enable_keepalive_handles_independent (table_kernel false)
              two_sockets 3 1 60 10 5 4 0 (-7) 1 1
              (table_kernel_faithful false)) as (_ & Hidle & _).
  - discriminate.
  - reflexivity.
  - exact Hidle.
Defined.
